(** * The repository facade [IBaseRepository] of typeorm-base-repository.ts

    A shallow embedding of the generic CRUD surface over one entity type:
    the read operations ([findOneOrFail], [findOne], [findMany], [findAll],
    [query]) and the mutating operations ([update], [upsert], [upsertMany],
    [delete], [deleteMany]), each of which writes to the store and then calls
    the invalidation trigger of the subscription storage.

    The asynchronous methods are sequenced by [await]; they are embedded in a
    state-and-exception monad over a world made of the table, the state of the
    subscription storage and the log of the calls made to both. *)

From stdpp Require Import gmap strings list fin_maps.
From Stdlib Require Import ZArith.

Set Warnings "-register-all".
Set Default Proof Using "Type*".

(** ** Values *)

(** Plain JavaScript data: what a query object, an entity or a result is made
    of. A missing optional argument is [VUndefined]. *)
Inductive value : Type :=
  | VUndefined
  | VNull
  | VBool (b : bool)
  | VNum (n : Z)
  | VStr (s : string)
  | VArr (items : list value)
  | VObj (fields : gmap string value).

(** An object: own properties by name. *)
Abbreviation obj := (gmap string value).

(** The test of [if (v)]. *)
Definition truthy (v : value) : bool :=
  match v with
  | VUndefined | VNull => false
  | VBool b => b
  | VNum n => negb (n =? 0)%Z
  | VStr s => negb (String.eqb s "")
  | VArr _ | VObj _ => true
  end.

(** [v[k]] where [v] is neither [undefined] nor [null]: the own property of an
    object, [undefined] when there is none. (Values that are not objects carry
    no property under the names read here.) *)
Definition get (v : value) (k : string) : value :=
  match v with
  | VObj o => default VUndefined (o !! k)
  | _ => VUndefined
  end.

(** [IdType extends string | number]. *)
Inductive IdType : Type :=
  | IdStr (s : string)
  | IdNum (n : Z).

#[global] Instance IdType_eq_dec : EqDecision IdType.
Proof. solve_decision. Defined.

#[global] Instance IdType_countable : Countable IdType :=
  inj_countable'
    (λ i, match i with IdStr s => inl s | IdNum n => inr n end)
    (λ x, match x with inl s => IdStr s | inr n => IdNum n end)
    (λ i, match i with IdStr _ => eq_refl | IdNum _ => eq_refl end).

Definition id_value (id : IdType) : value :=
  match id with
  | IdStr s => VStr s
  | IdNum n => VNum n
  end.

Definition value_id (v : value) : option IdType :=
  match v with
  | VStr s => Some (IdStr s)
  | VNum n => Some (IdNum n)
  | _ => None
  end.

(** The argument of [trigger] and of [repo.delete]: one id or an array. *)
Inductive IdOrIds : Type :=
  | OneId (id : IdType)
  | ManyIds (ids : list IdType).

(** The argument of [repo.save]: one object or an array. *)
Inductive SaveArg : Type :=
  | SaveOne (entity : obj)
  | SaveMany (entities : list obj).

(** Modelled from the spec: [IUpsertEntity] (declared in shared/domain, which
    is not among the sources): a full or partial entity carrying its id. The
    object passed to the store is [upsert_obj]. *)
Record IUpsertEntity : Type := {
  upsert_id : IdType;
  upsert_props : obj;
}.

Definition upsert_obj (e : IUpsertEntity) : obj :=
  <["id" := id_value (upsert_id e)]> (upsert_props e).

(** ** Collaborators *)

(** What the facade imports from shared/domain and relations.transform: the
    reserved pagination names, the relation path extractor and the result
    projector. The projector is a JavaScript function and may throw; [None]
    is a throw. *)
Class QueryLib : Type := {
  PAGINATE_KEY : string;
  PAGINATE_PAGE : string;
  PAGINATE_LIMIT : string;
  createTypeormRelationsArray : value → list string;
  parseQuery : value → value → option value;
}.

(** What the store engine decides on its own: the filter and sort options of
    [find], how relations are loaded onto a row (no relation list at all when
    the call passes no options), which rows an option set selects, the page
    object built by [paginate], and whether it rejects a batch write: the
    table it then leaves, which may hold a part of the batch, or [None] when
    it accepts the batch. *)
Class StoreEngine : Type := {
  FindManyOptions : Type;
  loadRelations : option (list string) → obj → obj;
  selectRows : option FindManyOptions → list obj → list obj;
  paginateRows : value → value → list obj → value;
  rejectBatch : gmap IdType obj → list obj → option (gmap IdType obj);
}.

(** The subscription storage: its state and what [trigger] does to it. The
    listeners it holds read the table when they run. *)
Class GatewaysStorage : Type := {
  Gateways : Type;
  gs_trigger : IdOrIds → gmap IdType obj → Gateways → Gateways;
}.

Section Facade.
Context `{QL : QueryLib} `{SE : StoreEngine} `{GS : GatewaysStorage}.

(** ** The world *)

Inductive RepoCall : Type :=
  | RFindOneOrFail (id : IdType) (relations : option (list string))
  | RFindOne (id : IdType) (relations : option (list string))
  | RFindByIds (ids : list IdType) (relations : option (list string))
  | RFind (options : option FindManyOptions) (relations : option (list string))
  | RPaginate (page limit : value) (options : option FindManyOptions)
      (relations : list string)
  | RSave (arg : SaveArg)
  | RDelete (arg : IdOrIds).

Inductive Event : Type :=
  | EvRepo (call : RepoCall)
  | EvTrigger (arg : IdOrIds).

Record World : Type := mkWorld {
  rows : gmap IdType obj;
  gateways : Gateways;
  trace : list Event;
}.

Inductive exn : Type :=
  | EntityNotFound
  | QueryFailed
  | TypeError.

Inductive outcome (A : Type) : Type :=
  | Ok (a : A)
  | Throw (e : exn).
#[global] Arguments Ok {A} a.
#[global] Arguments Throw {A} e.

Definition M (A : Type) : Type := World → outcome A * World.

#[global] Instance M_ret : MRet M := λ A a w, (Ok a, w).
#[global] Instance M_bind : MBind M := λ A B f m w,
  match m w with
  | (Ok a, w') => f a w'
  | (Throw e, w') => (Throw e, w')
  end.

Definition throw {A} (e : exn) : M A := λ w, (Throw e, w).

Definition log (ev : Event) (w : World) : World :=
  mkWorld (rows w) (gateways w) (trace w ++ [ev]).

Definition called (c : RepoCall) : M unit := λ w, (Ok (), log (EvRepo c) w).

Definition get_rows : M (gmap IdType obj) := λ w, (Ok (rows w), w).

Definition put_rows (t : gmap IdType obj) : M unit := λ w,
  (Ok (), mkWorld t (gateways w) (trace w)).

(** ** The store, [this.repo]

    The ORM repository and the pagination helper are external
    collaborators; their code is not among the sources. Each call is
    logged, then answered from the table. *)

Definition all_rows (t : gmap IdType obj) : list obj := (map_to_list t).*2.

Definition rows_of (ids : list IdType) (t : gmap IdType obj) : list obj :=
  (filter (λ kr, kr.1 ∈ ids) (map_to_list t)).*2.

Definition loaded (relations : option (list string)) (rs : list obj) : value :=
  VArr ((λ r, VObj (loadRelations relations r)) <$> rs).

(** Modelled from the spec: [Repository.findOneOrFail] of the store (not
    among the sources): the row of the id with its relations, [NotFound]
    if no row matches the id. *)
Definition repo_findOneOrFail (id : IdType) (relations : option (list string))
  : M value :=
  _ ← called (RFindOneOrFail id relations);
  t ← get_rows;
  match t !! id with
  | Some r => mret (VObj (loadRelations relations r))
  | None => throw EntityNotFound
  end.

(** Modelled from the spec: [Repository.findOne] of the store (not among
    the sources): as above, but an absent result instead of a failure. *)
Definition repo_findOne (id : IdType) (relations : option (list string))
  : M value :=
  _ ← called (RFindOne id relations);
  t ← get_rows;
  match t !! id with
  | Some r => mret (VObj (loadRelations relations r))
  | None => mret VUndefined
  end.

(** Modelled from the spec: [Repository.findByIds] of the store (not among
    the sources): batch fetch by id, each matching row once, in the table's
    order; missing ids are silently absent from the result. *)
Definition repo_findByIds (ids : list IdType) (relations : option (list string))
  : M value :=
  _ ← called (RFindByIds ids relations);
  t ← get_rows;
  mret (loaded relations (rows_of ids t)).

(** Modelled from the spec: [Repository.find] of the store (not among the
    sources): the full set, as the options filter and sort it. *)
Definition repo_find (options : option FindManyOptions)
    (relations : option (list string)) : M value :=
  _ ← called (RFind options relations);
  t ← get_rows;
  mret (loaded relations (selectRows options (all_rows t))).

(** Modelled from the spec: [paginate] of the pagination library (not among
    the sources): one page with counts, a capability of the store. *)
Definition paginate (page limit : value) (options : option FindManyOptions)
    (relations : list string) : M value :=
  _ ← called (RPaginate page limit options relations);
  t ← get_rows;
  mret (paginateRows page limit
          (loadRelations (Some relations) <$> selectRows options (all_rows t))).

(** Modelled from the spec: [Repository.save] of the store (not among the
    sources): upsert by id. The row of the object's id takes the object's
    fields and its unspecified fields retain their prior values; the row is
    inserted if absent. *)
Definition merge_row (id : IdType) (e : obj) (t : gmap IdType obj)
  : gmap IdType obj :=
  <[id := e ∪ default ∅ (t !! id)]> t.

(** An object without a string or number under [id] is rejected. *)
Definition save_row (t : gmap IdType obj) (e : obj) : option (gmap IdType obj) :=
  id ← value_id (default VUndefined (e !! "id"));
  Some (merge_row id e t).

(** A batch the store accepts is saved object by object, left to right. *)
Fixpoint save_rows (t : gmap IdType obj) (es : list obj)
  : option (gmap IdType obj) :=
  match es with
  | [] => Some t
  | e :: es' => t' ← save_row t e; save_rows t' es'
  end.

Definition save_arg (t : gmap IdType obj) (a : SaveArg) : option (gmap IdType obj) :=
  match a with
  | SaveOne e => save_row t e
  | SaveMany es => save_rows t es
  end.

(** Modelled from the spec: a store-level write failure. A batch write can
    be rejected by the store, and is not guaranteed to be atomic: the table
    is left as the store leaves it. *)
Definition rejected (t : gmap IdType obj) (a : SaveArg)
  : option (gmap IdType obj) :=
  match a with
  | SaveOne _ => None
  | SaveMany es => rejectBatch t es
  end.

Definition repo_save (a : SaveArg) : M unit :=
  _ ← called (RSave a);
  t ← get_rows;
  match rejected t a with
  | Some t_left => _ ← put_rows t_left; throw QueryFailed
  | None =>
      match save_arg t a with
      | Some t' => put_rows t'
      | None => throw QueryFailed
      end
  end.

(** Modelled from the spec: [Repository.delete] of the store (not among the
    sources): the row of the id, or of each id of the array, is deleted;
    an id without a row is no failure. *)
Definition delete_arg (t : gmap IdType obj) (a : IdOrIds) : gmap IdType obj :=
  match a with
  | OneId id => base.delete id t
  | ManyIds ids => foldr base.delete t ids
  end.

Definition repo_delete (a : IdOrIds) : M unit :=
  _ ← called (RDelete a);
  t ← get_rows;
  put_rows (delete_arg t a).

(** ** The subscription storage, [this.gatewaysStorage] *)

(** [this.gatewaysStorage.trigger(...)]: a plain call, not awaited. The
    storage sees the table as it is at the call. *)
Definition trigger (a : IdOrIds) : M unit := λ w,
  (Ok (), mkWorld (rows w) (gs_trigger a (rows w) (gateways w))
            (trace w ++ [EvTrigger a])).

(** ** The facade *)

(** [parseQuery(query, dbRes)] as a step of the method. *)
Definition projected (query dbRes : value) : M value :=
  match parseQuery query dbRes with
  | Some v => mret v
  | None => throw TypeError
  end.

Definition findOneOrFail (id : IdType) (query : value) : M value :=
  if truthy query then
    let relations := createTypeormRelationsArray query in
    dbRes ← repo_findOneOrFail id (Some relations);
    projected query dbRes
  else repo_findOneOrFail id None.

Definition findOne (id : IdType) (query : value) : M value :=
  if truthy query then
    let relations := createTypeormRelationsArray query in
    dbRes ← repo_findOne id (Some relations);
    projected query dbRes
  else repo_findOne id None.

Definition findMany (ids : list IdType) (query : value) : M value :=
  if (length ids =? 0)%nat then mret (VArr [])
  else if truthy query then
    let relations := createTypeormRelationsArray query in
    dbRes ← repo_findByIds ids (Some relations);
    projected query dbRes
  else repo_findByIds ids None.

Definition findAll (query : value) : M value :=
  if truthy query then
    let relations := createTypeormRelationsArray query in
    dbRes ← repo_find None (Some relations);
    projected query dbRes
  else repo_find None None.

(** Reading a property of [undefined] or [null] throws. *)
Definition prop (v : value) (k : string) : M value :=
  match v with
  | VUndefined | VNull => throw TypeError
  | _ => mret (get v k)
  end.

Definition provisionQuery (query : value) (options : option FindManyOptions)
  : M value :=
  let relations := createTypeormRelationsArray query in
  paginateOptions ← prop query PAGINATE_KEY;
  if truthy paginateOptions then
    page ← prop paginateOptions PAGINATE_PAGE;
    limit ← prop paginateOptions PAGINATE_LIMIT;
    paginate page limit options relations
  else repo_find options (Some relations).

Definition query (q : value) (options : option FindManyOptions) : M value :=
  entities ← provisionQuery q options;
  projected q entities.

Definition update (id : IdType) (entity : obj) (query : value) : M value :=
  _ ← repo_save (SaveOne (<["id" := id_value id]> entity));
  _ ← trigger (OneId id);
  if truthy query then findOneOrFail id query else findOneOrFail id VUndefined.

Definition upsert (entity : IUpsertEntity) (query : value) : M value :=
  _ ← repo_save (SaveOne (upsert_obj entity));
  _ ← trigger (OneId (upsert_id entity));
  if truthy query then findOneOrFail (upsert_id entity) query
  else findOneOrFail (upsert_id entity) VUndefined.

Definition upsertMany (entities : list IUpsertEntity) (query : value) : M value :=
  if (length entities =? 0)%nat then mret (VArr [])
  else
    _ ← repo_save (SaveMany (upsert_obj <$> entities));
    let ids := upsert_id <$> entities in
    _ ← trigger (ManyIds ids);
    if truthy query then findMany ids query else findMany ids VUndefined.

Definition delete (id : IdType) : M IdType :=
  _ ← repo_delete (OneId id);
  _ ← trigger (OneId id);
  mret id.

Definition deleteMany (ids : list IdType) : M (list IdType) :=
  if (length ids =? 0)%nat then mret []
  else
    _ ← repo_delete (ManyIds ids);
    _ ← trigger (ManyIds ids);
    mret ids.

(** ** Reading the log *)

Definition is_trigger (ev : Event) : bool :=
  match ev with
  | EvTrigger _ => true
  | EvRepo _ => false
  end.

Definition is_write (ev : Event) : bool :=
  match ev with
  | EvRepo (RSave _) | EvRepo (RDelete _) => true
  | _ => false
  end.

Definition is_read (ev : Event) : bool :=
  match ev with
  | EvRepo (RSave _) | EvRepo (RDelete _) | EvTrigger _ => false
  | EvRepo _ => true
  end.

Definition is_paginate (ev : Event) : bool :=
  match ev with
  | EvRepo (RPaginate _ _ _ _) => true
  | _ => false
  end.

(** The events an operation added to the log. *)
Definition since (w w' : World) : list Event :=
  drop (length (trace w)) (trace w').

(** The page mode of [query]: a [paginate] call among the events it adds. *)
Definition paginated (q : value) (options : option FindManyOptions)
    (w : World) : bool :=
  existsb is_paginate (since w (query q options w).2).

(** ** Vocabulary of the statements *)

(** The relation list a read passes to the store for a query argument. *)
Definition relations_of (q : value) : option (list string) :=
  if truthy q then Some (createTypeormRelationsArray q) else None.

(** A store result projected through the query when one is given, and as
    it is otherwise. *)
Definition through (q v : value) : outcome value :=
  if truthy q then
    match parseQuery q v with
    | Some v' => Ok v'
    | None => Throw TypeError
    end
  else Ok v.

(** The table after a batch save of entities that carry their ids. *)
Definition merge_rows (es : list IUpsertEntity) (t : gmap IdType obj)
  : gmap IdType obj :=
  foldl (λ t' e, merge_row (upsert_id e) (upsert_obj e) t') t es.

(** The world in which a mutator re-reads: the table written, the storage
    triggered on it, and the write and the trigger logged in that order. *)
Definition written (w : World) (t' : gmap IdType obj) (c : RepoCall)
    (a : IdOrIds) : World :=
  mkWorld t' (gs_trigger a t' (gateways w))
    (trace w ++ [EvRepo c; EvTrigger a]).

(** What reading the row of [id] in the table [t] gives: the row with its
    relations, through the query; the not-found error without a row. *)
Definition row_read (t : gmap IdType obj) (id : IdType) (q : value)
  : outcome value :=
  match t !! id with
  | Some r => through q (VObj (loadRelations (relations_of q) r))
  | None => Throw EntityNotFound
  end.

(** What reading the rows of [ids] in the table [t] gives. *)
Definition rows_read (t : gmap IdType obj) (ids : list IdType) (q : value)
  : outcome value :=
  through q (loaded (relations_of q) (rows_of ids t)).

(** [m], run in [w], makes the store write [write], which leaves the table
    [t']; then calls the trigger with [a], on that table; then makes the
    store reads [reads] and nothing else; and returns [r]. *)
Definition write_notify_return {A} (m : M A) (w : World) (write : RepoCall)
    (t' : gmap IdType obj) (a : IdOrIds) (reads : list Event)
    (r : outcome A) : Prop :=
  is_write (EvRepo write) = true
  ∧ forallb is_read reads = true
  ∧ m w = (r, mkWorld t' (gs_trigger a t' (gateways w))
                (trace w ++ EvRepo write :: EvTrigger a :: reads)).

(** A computation that leaves the table and the subscription storage as
    they are and adds store reads only to the log. *)
Definition read_only {A} (m : M A) : Prop :=
  ∀ w, rows (m w).2 = rows w
       ∧ gateways (m w).2 = gateways w
       ∧ ∃ evs, trace (m w).2 = trace w ++ evs ∧ forallb is_read evs = true.

End Facade.

(** A query that has the own property [k] at its top level. *)
Definition has_key (q : value) (k : string) : bool :=
  match q with
  | VObj o => bool_decide (is_Some (o !! k))
  | _ => false
  end.

(** ** The result projector

    [parseQuery] is declared in shared/domain, which is not among the
    sources. *)

(** Modelled from the spec: what the Result Projector (not among the
    sources) puts under the name [k] of an entity, for the value [qk] the
    query holds there: the field itself for [true], the field
    projected for a nested query, nothing otherwise and nothing under the
    reserved pagination name. *)
Definition projected_field (reserved k : string) (qk : value)
    (field : value * (value → value)) : option value :=
  if decide (k = reserved) then None
  else match qk with
       | VBool true => Some field.1
       | VObj _ => Some (field.2 qk)
       | _ => None
       end.

(** Modelled from the spec: the Result Projector, [parseQuery] (not among
    the sources). An absent value is passed through: the projector never
    invents a not-found error. A sequence is projected element by element,
    in input order. Of an entity, the fields the query marks [true] are
    copied, the relations the query nests are projected recursively, and the
    keys the query does not have are omitted; the reserved pagination name
    does not affect the shape. *)
Fixpoint project (reserved : string) (v q : value) {struct v} : value :=
  match v with
  | VArr items => VArr ((λ item, project reserved item q) <$> items)
  | VObj entity =>
      match q with
      | VObj spec =>
          VObj (map_imap
                  (λ k field, qk ← spec !! k; projected_field reserved k qk field)
                  ((λ vk, (vk, project reserved vk)) <$> entity))
      | _ => v
      end
  | _ => v
  end.

(** Modelled from the spec: the projector at the collection level. When the
    query carries the pagination key, the page is passed through
    structurally: the item list, held under [items_key], is projected and
    the metadata stay beside it. *)
Definition project_page (reserved items_key : string) (q v : value) : value :=
  if truthy (get q reserved) then
    match v with
    | VObj page =>
        match page !! items_key with
        | Some items =>
            VObj (<[items_key := project reserved items q]> page)
        | None => project reserved v q
        end
    | _ => project reserved v q
    end
  else project reserved v q.

(** The library [L] with the projector of the spec. *)
Definition with_spec_projector (items_key : string) (L : QueryLib) : QueryLib := {|
  PAGINATE_KEY := @PAGINATE_KEY L;
  PAGINATE_PAGE := @PAGINATE_PAGE L;
  PAGINATE_LIMIT := @PAGINATE_LIMIT L;
  createTypeormRelationsArray := @createTypeormRelationsArray L;
  parseQuery := λ q v, Some (project_page (@PAGINATE_KEY L) items_key q v);
|}.

(** ** A sample instance

    Entities without relations in an in-memory table, used to run the facade
    on concrete inputs. *)
Module Sample.

Definition is_obj (v : value) : bool :=
  match v with
  | VObj _ => true
  | _ => false
  end.

(** The names under which the query holds a nested query. *)
Definition nested_names (q : value) : list string :=
  match q with
  | VObj o => (filter (λ kv, is_obj kv.2 ∧ kv.1 ≠ "__paginate") (map_to_list o)).*1
  | _ => []
  end.

(** Keeps the own fields that the query names. *)
Definition keep (q v : value) : value :=
  match v with
  | VObj o => VObj (filter (λ kv, truthy (get q kv.1)) o)
  | _ => v
  end.

Definition keep_all (q v : value) : option value :=
  match v with
  | VArr items => Some (VArr (keep q <$> items))
  | VObj o =>
      match o !! "items" with
      | Some (VArr items) =>
          if truthy (get q "__paginate")
          then Some (VObj (<["items" := VArr (keep q <$> items)]> o))
          else Some (keep q v)
      | _ => Some (keep q v)
      end
  | _ => Some v
  end.

#[export] Instance lib : QueryLib := {|
  PAGINATE_KEY := "__paginate";
  PAGINATE_PAGE := "page";
  PAGINATE_LIMIT := "limit";
  createTypeormRelationsArray := nested_names;
  parseQuery := keep_all;
|}.

Definition page_of (page limit : value) (rs : list obj) : value :=
  let items :=
    match page, limit with
    | VNum p, VNum l => take (Z.to_nat l) (drop (Z.to_nat ((p - 1) * l)) rs)
    | _, _ => rs
    end in
  VObj {[ "items" := VArr (VObj <$> items);
          "meta" := VObj {[ "totalItems" := VNum (Z.of_nat (length rs));
                            "currentPage" := page;
                            "itemsPerPage" := limit ]} ]}.

(** A batch that names twice an id that has no row yet is two inserts of one
    key. *)
Definition repeats_new_id (t : gmap IdType obj) (es : list obj) : bool :=
  let ids := omap (λ e : obj, value_id (default VUndefined (e !! "id"))) es in
  existsb (λ id, match t !! id with
                 | None => (1 <? length (filter (λ j, j = id) ids))%nat
                 | Some _ => false
                 end) ids.

(** The only option is [take], a bound on the number of rows. A batch write
    runs in a transaction: a rejected batch leaves the table as it was. *)
#[export] Instance engine : StoreEngine := {|
  FindManyOptions := nat;
  loadRelations := λ _ r, r;
  selectRows := λ o rs, match o with Some n => take n rs | None => rs end;
  paginateRows := page_of;
  rejectBatch := λ t es, if repeats_new_id t es then Some t else None;
|}.

(** The storage keeps the list of the triggers it received, each with the
    table its listeners read. *)
#[export] Instance storage : GatewaysStorage := {|
  Gateways := list (IdOrIds * gmap IdType obj);
  gs_trigger := λ a t g, g ++ [(a, t)];
|}.

Definition ada : obj := {[ "id" := VNum 1; "name" := VStr "Ada"; "age" := VNum 36 ]}.
Definition bob : obj := {[ "id" := VNum 2; "name" := VStr "Bob"; "age" := VNum 41 ]}.

Definition table : gmap IdType obj := {[ IdNum 1 := ada; IdNum 2 := bob ]}.

Definition w0 : World := mkWorld table [] [].

Definition name_only : value := VObj {[ "name" := VBool true ]}.

(** A query with a page number and a page size at its top level. *)
Definition flat_page : value :=
  VObj {[ "name" := VBool true; "page" := VNum 1; "limit" := VNum 1 ]}.

(** A query with the page number and the page size under the pagination
    key. *)
Definition nested_page : value :=
  VObj {[ "name" := VBool true;
          "__paginate" := VObj {[ "page" := VNum 1; "limit" := VNum 1 ]} ]}.

End Sample.

(** ** The subscriptions, [this.subscriptions]

    Each subscription builds a listener, a closure over [this.repo], and
    hands it to the subscription storage with the socket, the channel and the
    query. The storage's code is not among the sources: a subscription is
    embedded as the call it makes. *)
Section Subscriptions.
Context `{QL : QueryLib} `{SE : StoreEngine} `{GS : GatewaysStorage}.
Context {Socket : Type}.

Record Provision : Type := mkProvision {
  sub_socket : Socket;
  sub_channel : string;
  sub_listener : M value;
  sub_query : value;
}.

Inductive StorageCall : Type :=
  | ProvisionIdsSubscription (p : Provision)
  | ProvisionQuerySubscription (p : Provision)
  | RemoveListener (socket : Socket).

(** The listener of [oneEntitySubscription]. *)
Definition oneEntityListener (id : IdType) (query : value) : M value :=
  let relations := createTypeormRelationsArray query in
  repo_findOneOrFail id (Some relations).

Definition oneEntitySubscription (socket : Socket) (channel : string)
    (id : IdType) (query : value) : StorageCall :=
  ProvisionIdsSubscription
    (mkProvision socket channel (oneEntityListener id query) query).

(** The listener of [manyEntitiesSubscription]. *)
Definition manyEntitiesListener (ids : list IdType) (query : value) : M value :=
  let relations := createTypeormRelationsArray query in
  repo_findByIds ids (Some relations).

Definition manyEntitiesSubscription (socket : Socket) (channel : string)
    (ids : list IdType) (query : value) : StorageCall :=
  ProvisionIdsSubscription
    (mkProvision socket channel (manyEntitiesListener ids query) query).

(** The listener of [querySubscription]. *)
Definition queryListener (query : value) (options : option FindManyOptions)
  : M value :=
  provisionQuery query options.

Definition querySubscription (socket : Socket) (channel : string)
    (query : value) (options : option FindManyOptions) : StorageCall :=
  ProvisionQuerySubscription
    (mkProvision socket channel (queryListener query options) query).

Definition onDisconnect (socket : Socket) : StorageCall :=
  RemoveListener socket.

End Subscriptions.

(** ** The REST clients

    [HandleRestClient] and [ServeAdminRestClient] post a body made of the
    query and the DTO to a route under the API URL. A request is embedded as
    the URL and the body given to [http.post]. *)

(** What the clients import from shared/domain: the API URL of the
    environment, the two routes and the two names of the body. *)
Class RestConfig : Type := {
  environment_apiUrl : string;
  InvolvemintRoutes_handle : string;
  InvolvemintRoutes_spAdmin : string;
  QUERY_KEY : string;
  DTO_KEY : string;
}.

Record HttpPost : Type := mkPost {
  post_url : string;
  post_body : obj;
}.

Module HandleRestClient.
Section Client.
Context `{RC : RestConfig}.

Definition apiUrl : string :=
  environment_apiUrl +:+ "/" +:+ InvolvemintRoutes_handle.

Definition verifyHandle (query dto : value) : HttpPost :=
  let body : obj := <[DTO_KEY := dto]> (<[QUERY_KEY := query]> ∅) in
  mkPost (apiUrl +:+ "/verifyHandle") body.

Definition searchHandles (query dto : value) : HttpPost :=
  let body : obj := <[DTO_KEY := dto]> (<[QUERY_KEY := query]> ∅) in
  mkPost (apiUrl +:+ "/searchHandles") body.

Definition viewProfile (query dto : value) : HttpPost :=
  let body : obj := <[DTO_KEY := dto]> (<[QUERY_KEY := query]> ∅) in
  mkPost (apiUrl +:+ "/viewProfile") body.

Definition genericSearch (query dto : value) : HttpPost :=
  let body : obj := <[DTO_KEY := dto]> (<[QUERY_KEY := query]> ∅) in
  mkPost (apiUrl +:+ "/genericSearch") body.

(** The four methods, in the order of the class. *)
Definition methods : list (value → value → HttpPost) :=
  [verifyHandle; searchHandles; viewProfile; genericSearch].

End Client.
End HandleRestClient.

Module ServeAdminRestClient.
Section Client.
Context `{RC : RestConfig}.

Definition apiUrl : string :=
  environment_apiUrl +:+ "/" +:+ InvolvemintRoutes_spAdmin.

Definition getForServePartner (query dto : value) : HttpPost :=
  let body : obj := <[DTO_KEY := dto]> (<[QUERY_KEY := query]> ∅) in
  mkPost (apiUrl +:+ "/getForServePartner") body.

Definition addAdmin (query dto : value) : HttpPost :=
  let body : obj := <[DTO_KEY := dto]> (<[QUERY_KEY := query]> ∅) in
  mkPost (apiUrl +:+ "/addAdmin") body.

Definition removeAdmin (query dto : value) : HttpPost :=
  let body : obj := <[DTO_KEY := dto]> (<[QUERY_KEY := query]> ∅) in
  mkPost (apiUrl +:+ "/removeAdmin") body.

(** The three methods, in the order of the class. *)
Definition methods : list (value → value → HttpPost) :=
  [getForServePartner; addAdmin; removeAdmin].

End Client.
End ServeAdminRestClient.

(** ** Further samples *)
Module Sample2.
Import Sample.

(** The names a query selects at its top level. *)
Definition selected (q : value) : list string :=
  match q with
  | VObj o =>
      (filter (λ kv, truthy kv.2 ∧ kv.1 ≠ "__paginate") (map_to_list o)).*1
  | _ => []
  end.

(** A projector that reads the keys of the entity it is given: it throws on
    an absent entity, and on an entity without a field the query selects. *)
Definition keep_strict (q v : value) : option value :=
  match v with
  | VUndefined | VNull => None
  | VObj o =>
      if forallb (λ k, bool_decide (is_Some (o !! k))) (selected q)
      then keep_all q v else None
  | _ => keep_all q v
  end.

Definition strict : QueryLib := {|
  PAGINATE_KEY := "__paginate";
  PAGINATE_PAGE := "page";
  PAGINATE_LIMIT := "limit";
  createTypeormRelationsArray := nested_names;
  parseQuery := keep_strict;
|}.

Definition email_only : value := VObj {[ "email" := VBool true ]}.

(** A query whose pagination value carries neither a page nor a limit. *)
Definition bare_page : value :=
  VObj {[ "name" := VBool true; "__paginate" := VObj ∅ ]}.

Definition cy : IUpsertEntity :=
  {| upsert_id := IdNum 3; upsert_props := {[ "name" := VStr "Cy" ]} |}.

Definition dee : IUpsertEntity :=
  {| upsert_id := IdNum 4; upsert_props := {[ "name" := VStr "Dee" ]} |}.

Definition config : RestConfig := {|
  environment_apiUrl := "https://api.example.org";
  InvolvemintRoutes_handle := "handle";
  InvolvemintRoutes_spAdmin := "spAdmin";
  QUERY_KEY := "query";
  DTO_KEY := "dto";
|}.

End Sample2.

(** ** Properties *)

Section Properties.
Context `{QL : QueryLib} `{SE : StoreEngine} `{GS : GatewaysStorage}.

Ltac run :=
  repeat (first
    [ progress unfold mbind, M_bind, mret, M_ret, throw, called, get_rows,
        put_rows, trigger, log, projected, prop
    | progress cbn [fst snd rows gateways trace] ]).

(** C4: [findMany], [upsertMany] and [deleteMany] on an empty list return an
    empty list and leave the whole world as it was: the table, the
    subscription storage and the log, to which no store call is added;
    whatever the query argument is. *)
Theorem empty_input_no_store_access (q : value) (w : World) :
  findMany [] q w = (Ok (VArr []), w)
  ∧ upsertMany [] q w = (Ok (VArr []), w)
  ∧ deleteMany [] w = (Ok [], w).
Proof. done. Qed.

(** *** The read operations, run *)

Lemma findOneOrFail_run (id : IdType) (q : value) (w : World) :
  findOneOrFail id q w =
    (match rows w !! id with
     | Some r => through q (VObj (loadRelations (relations_of q) r))
     | None => Throw EntityNotFound
     end,
     log (EvRepo (RFindOneOrFail id (relations_of q))) w).
Proof.
  unfold findOneOrFail, repo_findOneOrFail, through, relations_of.
  destruct (truthy q); run; destruct (rows w !! id) as [r|]; run; try done.
  by destruct (parseQuery q _).
Qed.

Lemma findOne_run (id : IdType) (q : value) (w : World) :
  findOne id q w =
    (through q (from_option (λ r, VObj (loadRelations (relations_of q) r))
                  VUndefined (rows w !! id)),
     log (EvRepo (RFindOne id (relations_of q))) w).
Proof.
  unfold findOne, repo_findOne, through, relations_of.
  destruct (truthy q); run; destruct (rows w !! id) as [r|]; run; try done;
    by destruct (parseQuery q _).
Qed.

Lemma findMany_run (id : IdType) (ids : list IdType) (q : value) (w : World) :
  findMany (id :: ids) q w =
    (through q (loaded (relations_of q) (rows_of (id :: ids) (rows w))),
     log (EvRepo (RFindByIds (id :: ids) (relations_of q))) w).
Proof.
  unfold findMany, repo_findByIds, through, relations_of. cbn [length Nat.eqb].
  destruct (truthy q); run; try done. by destruct (parseQuery q _).
Qed.

Lemma findAll_run (q : value) (w : World) :
  findAll q w =
    (through q (loaded (relations_of q) (selectRows None (all_rows (rows w)))),
     log (EvRepo (RFind None (relations_of q))) w).
Proof.
  unfold findAll, repo_find, through, relations_of.
  destruct (truthy q); run; try done. by destruct (parseQuery q _).
Qed.

Lemma through_not_EntityNotFound (q v : value) :
  through q v ≠ Throw EntityNotFound.
Proof.
  unfold through. destruct (truthy q); [|done]. by destruct (parseQuery q v).
Qed.

Lemma through_falsy (q v : value) : truthy q = false → through q v = Ok v.
Proof. unfold through. by intros ->. Qed.

(** A falsy query argument is read as no query at all. *)
Lemma findOneOrFail_falsy (id : IdType) (q : value) :
  truthy q = false → findOneOrFail id q = findOneOrFail id VUndefined.
Proof. unfold findOneOrFail. by intros ->. Qed.

Lemma findMany_falsy (ids : list IdType) (q : value) :
  truthy q = false → findMany ids q = findMany ids VUndefined.
Proof. unfold findMany. by intros ->. Qed.

(** C7: [findOneOrFail] asks the store for the row of the id, with the
    relations extracted from the query when there is one, and returns the
    row projected through the query (as it is when there is none); it throws
    the store's not-found error exactly when the table has no row for the
    id, and then returns no value. *)
Theorem findOneOrFail_fetch_project_or_NotFound
    (id : IdType) (q : value) (w : World) :
  (∀ r, rows w !! id = Some r →
     findOneOrFail id q w =
       (through q (VObj (loadRelations (relations_of q) r)),
        log (EvRepo (RFindOneOrFail id (relations_of q))) w))
  ∧ (rows w !! id = None ↔ (findOneOrFail id q w).1 = Throw EntityNotFound)
  ∧ (truthy q = true →
     relations_of q = Some (createTypeormRelationsArray q))
  ∧ (truthy q = false → relations_of q = None).
Proof.
  rewrite findOneOrFail_run. split_and!.
  - by intros r ->.
  - destruct (rows w !! id) as [r|]; cbn [fst]; split; try done.
    intros Hthrow. by apply through_not_EntityNotFound in Hthrow.
  - unfold relations_of. by intros ->.
  - unfold relations_of. by intros ->.
Qed.

(** When the table has no row for the id, [findOne] returns [undefined]
    without a query, and with a query if the projector passes an absent
    entity through. *)
Lemma findOne_absent_row_passed_through (id : IdType) (q : value) (w : World) :
  rows w !! id = None →
  (truthy q = true → parseQuery q VUndefined = Some VUndefined) →
  findOne id q w = (Ok VUndefined, log (EvRepo (RFindOne id (relations_of q))) w).
Proof.
  intros Hnone Hproj. rewrite findOne_run, Hnone. cbn [from_option].
  unfold through. destruct (truthy q); [|done]. by rewrite Hproj.
Qed.

(** *** Read-only computations *)

Lemma read_only_ret {A} (a : A) : read_only (mret a).
Proof. intros w. split_and!; try done. exists []. by rewrite app_nil_r. Qed.

Lemma read_only_throw {A} (e : exn) : read_only (throw (A:=A) e).
Proof. intros w. split_and!; try done. exists []. by rewrite app_nil_r. Qed.

Lemma read_only_get_rows : read_only get_rows.
Proof. intros w. split_and!; try done. exists []. by rewrite app_nil_r. Qed.

Lemma read_only_called (c : RepoCall) :
  is_read (EvRepo c) = true → read_only (called c).
Proof.
  intros Hc w. split_and!; try done. exists [EvRepo c]. split; [done|].
  cbn [forallb]. by rewrite Hc.
Qed.

Lemma read_only_bind {A B} (m : M A) (f : A → M B) :
  read_only m → (∀ a, read_only (f a)) → read_only (m ≫= f).
Proof.
  intros Hm Hf w. specialize (Hm w). unfold mbind, M_bind.
  destruct (m w) as [[a|e] w1]; cbn [snd] in *; [|done].
  destruct Hm as (Hr & Hg & evs & Ht & Hevs).
  destruct (Hf a w1) as (Hr' & Hg' & evs' & Ht' & Hevs').
  split_and!; [congruence..|].
  exists (evs ++ evs'). rewrite Ht', Ht, forallb_app, Hevs, Hevs'.
  by rewrite (assoc_L (++)).
Qed.

Lemma read_only_projected (q v : value) : read_only (projected q v).
Proof.
  unfold projected. destruct (parseQuery q v);
    [apply read_only_ret | apply read_only_throw].
Qed.

Lemma read_only_prop (v : value) (k : string) : read_only (prop v k).
Proof. destruct v; first [apply read_only_ret | apply read_only_throw]. Qed.

Create HintDb reads.
Hint Resolve read_only_ret read_only_throw read_only_get_rows
  read_only_projected read_only_prop : reads.

Ltac read_only_steps :=
  repeat first
    [ apply read_only_bind; [|intros ?]
    | apply read_only_called; reflexivity
    | solve [auto with reads]
    | match goal with
      | |- read_only (match ?x with _ => _ end) => destruct x
      | |- read_only (if ?b then _ else _) => destruct b
      end ].

Lemma read_only_findOneOrFail (id : IdType) (q : value) :
  read_only (findOneOrFail id q).
Proof. unfold findOneOrFail, repo_findOneOrFail. read_only_steps. Qed.

Lemma read_only_findOne (id : IdType) (q : value) : read_only (findOne id q).
Proof. unfold findOne, repo_findOne. read_only_steps. Qed.

Lemma read_only_findMany (ids : list IdType) (q : value) :
  read_only (findMany ids q).
Proof. unfold findMany, repo_findByIds. read_only_steps. Qed.

Lemma read_only_findAll (q : value) : read_only (findAll q).
Proof. unfold findAll, repo_find. read_only_steps. Qed.

Lemma read_only_query (q : value) (options : option FindManyOptions) :
  read_only (query q options).
Proof.
  unfold query, provisionQuery, paginate, repo_find. read_only_steps.
Qed.

Lemma read_only_no_trigger {A} (m : M A) (w : World) :
  read_only m → existsb is_trigger (since w (m w).2) = false.
Proof.
  intros Hm. destruct (Hm w) as (_ & _ & evs & Ht & Hevs).
  unfold since. rewrite Ht, drop_app_length. clear Ht.
  induction evs as [|ev evs IH]; [done|].
  cbn [forallb existsb] in *. apply andb_prop in Hevs as [Hev Hevs].
  rewrite IH by done. by destruct ev as [[]|].
Qed.

(** C10: none of the read operations calls the trigger. Each of
    [findOneOrFail], [findOne], [findMany], [findAll] and [query] leaves
    the subscription storage (and the table) as it was, and the events it
    adds to the log are store reads, none of them a trigger. *)
Theorem reads_never_trigger (id : IdType) (ids : list IdType) (q : value)
    (options : option FindManyOptions) (w : World) :
  let no_trigger (w' : World) :=
    gateways w' = gateways w ∧ rows w' = rows w
    ∧ existsb is_trigger (since w w') = false
    ∧ forallb is_read (since w w') = true in
  no_trigger (findOneOrFail id q w).2
  ∧ no_trigger (findOne id q w).2
  ∧ no_trigger (findMany ids q w).2
  ∧ no_trigger (findAll q w).2
  ∧ no_trigger (query q options w).2.
Proof.
  assert (Hall : ∀ (m : M value), read_only m →
    gateways (m w).2 = gateways w ∧ rows (m w).2 = rows w
    ∧ existsb is_trigger (since w (m w).2) = false
    ∧ forallb is_read (since w (m w).2) = true).
  { intros m Hm. pose proof (read_only_no_trigger m w Hm) as Hno.
    destruct (Hm w) as (Hr & Hg & evs & Ht & Hevs).
    split_and!; try done. unfold since. by rewrite Ht, drop_app_length. }
  exact (conj (Hall _ (read_only_findOneOrFail id q))
        (conj (Hall _ (read_only_findOne id q))
        (conj (Hall _ (read_only_findMany ids q))
        (conj (Hall _ (read_only_findAll q))
              (Hall _ (read_only_query q options)))))).
Qed.

(** *** The store writes *)

Lemma value_id_id_value (id : IdType) : value_id (id_value id) = Some id.
Proof. by destruct id. Qed.

Lemma save_row_id (id : IdType) (e : obj) (t : gmap IdType obj) :
  save_row t (<["id" := id_value id]> e)
  = Some (merge_row id (<["id" := id_value id]> e) t).
Proof.
  unfold save_row. rewrite lookup_insert_eq. simpl.
  by rewrite value_id_id_value.
Qed.

Lemma save_row_upsert (e : IUpsertEntity) (t : gmap IdType obj) :
  save_row t (upsert_obj e) = Some (merge_row (upsert_id e) (upsert_obj e) t).
Proof. apply save_row_id. Qed.

Lemma save_rows_upsert (es : list IUpsertEntity) (t : gmap IdType obj) :
  save_rows t (upsert_obj <$> es) = Some (merge_rows es t).
Proof.
  revert t. induction es as [|e es IH]; intros t; [done|].
  cbn [fmap list_fmap save_rows]. rewrite save_row_upsert.
  cbn [mbind option_bind]. apply IH.
Qed.

Lemma since_app (w : World) (t : gmap IdType obj) (g : Gateways)
    (evs : list Event) :
  since w (mkWorld t g (trace w ++ evs)) = evs.
Proof. unfold since. cbn [trace]. by rewrite drop_app_length. Qed.

Lemma log_written (w : World) (t' : gmap IdType obj) (c : RepoCall)
    (a : IdOrIds) (ev : Event) :
  log ev (written w t' c a)
  = mkWorld t' (gs_trigger a t' (gateways w))
      (trace w ++ [EvRepo c; EvTrigger a; ev]).
Proof.
  unfold log, written. cbn [rows gateways trace].
  by rewrite <-(assoc_L (++)).
Qed.

(** *** The mutating operations, run *)

Lemma update_run (id : IdType) (entity : obj) (q : value) (w : World) :
  let saved := <["id" := id_value id]> entity in
  update id entity q w
  = findOneOrFail id q
      (written w (merge_row id saved (rows w)) (RSave (SaveOne saved)) (OneId id)).
Proof.
  cbv zeta. unfold update, repo_save. run. cbn [rejected save_arg].
  rewrite save_row_id. run. rewrite <-(assoc_L (++)). cbn [app].
  unfold written. destruct (truthy q) eqn:Hq; [done|].
  by rewrite (findOneOrFail_falsy id q Hq).
Qed.

Lemma upsert_run (entity : IUpsertEntity) (q : value) (w : World) :
  upsert entity q w
  = findOneOrFail (upsert_id entity) q
      (written w (merge_row (upsert_id entity) (upsert_obj entity) (rows w))
         (RSave (SaveOne (upsert_obj entity))) (OneId (upsert_id entity))).
Proof.
  unfold upsert, repo_save. run. cbn [rejected save_arg].
  rewrite save_row_upsert. run. rewrite <-(assoc_L (++)). cbn [app].
  unfold written. destruct (truthy q) eqn:Hq; [done|].
  by rewrite (findOneOrFail_falsy _ q Hq).
Qed.

Lemma upsertMany_run (e : IUpsertEntity) (es : list IUpsertEntity)
    (q : value) (w : World) :
  let ids := upsert_id <$> e :: es in
  rejectBatch (rows w) (upsert_obj <$> e :: es) = None →
  upsertMany (e :: es) q w
  = findMany ids q
      (written w (merge_rows (e :: es) (rows w))
         (RSave (SaveMany (upsert_obj <$> e :: es))) (ManyIds ids)).
Proof.
  cbv zeta. intros Haccept.
  unfold upsertMany, repo_save. cbn [length Nat.eqb]. run.
  cbn [rejected save_arg]. rewrite Haccept, save_rows_upsert. run.
  rewrite <-(assoc_L (++)). cbn [app]. unfold written.
  destruct (truthy q) eqn:Hq; [done|].
  by rewrite (findMany_falsy _ q Hq).
Qed.

Lemma upsertMany_rejected (e : IUpsertEntity) (es : list IUpsertEntity)
    (q : value) (w : World) (t_left : gmap IdType obj) :
  rejectBatch (rows w) (upsert_obj <$> e :: es) = Some t_left →
  upsertMany (e :: es) q w
  = (Throw QueryFailed,
     mkWorld t_left (gateways w)
       (trace w ++ [EvRepo (RSave (SaveMany (upsert_obj <$> e :: es)))])).
Proof.
  intros Hreject. unfold upsertMany, repo_save. cbn [length Nat.eqb]. run.
  cbn [rejected]. by rewrite Hreject.
Qed.

Lemma delete_run (id : IdType) (w : World) :
  delete id w
  = (Ok id, written w (base.delete id (rows w)) (RDelete (OneId id)) (OneId id)).
Proof.
  unfold delete, repo_delete. run. cbn [delete_arg].
  by rewrite <-(assoc_L (++)).
Qed.

Lemma deleteMany_run (id : IdType) (ids : list IdType) (w : World) :
  deleteMany (id :: ids) w
  = (Ok (id :: ids),
     written w (foldr base.delete (rows w) (id :: ids))
       (RDelete (ManyIds (id :: ids))) (ManyIds (id :: ids))).
Proof.
  unfold deleteMany, repo_delete. cbn [length Nat.eqb]. run.
  cbn [delete_arg]. by rewrite <-(assoc_L (++)).
Qed.

(** *** Write, then trigger, then return *)

(** C1: in each mutating operation the trigger is called once, after the
    store write and before anything is returned. [update] and [upsert] save,
    call the trigger with the id on the table as saved, read the row of the
    id back and return what that read gives on the saved table; [upsertMany]
    on a non-empty list does so with the whole batch and the list of ids
    when the store accepts the batch, and calls no trigger and throws when
    the store rejects it; [delete] and [deleteMany] on a non-empty list
    delete, call the trigger on the table as left, and return their
    argument with no read. *)
Theorem mutators_trigger_after_write_before_return
    (id : IdType) (ids : list IdType) (partial : obj) (e : IUpsertEntity)
    (es : list IUpsertEntity) (q : value) (w : World) :
  let saved := <["id" := id_value id]> partial in
  let uids := upsert_id <$> e :: es in
  let objs := upsert_obj <$> e :: es in
  write_notify_return (update id partial q) w
    (RSave (SaveOne saved)) (merge_row id saved (rows w)) (OneId id)
    [EvRepo (RFindOneOrFail id (relations_of q))]
    (row_read (merge_row id saved (rows w)) id q)
  ∧ write_notify_return (upsert e q) w
      (RSave (SaveOne (upsert_obj e)))
      (merge_row (upsert_id e) (upsert_obj e) (rows w)) (OneId (upsert_id e))
      [EvRepo (RFindOneOrFail (upsert_id e) (relations_of q))]
      (row_read (merge_row (upsert_id e) (upsert_obj e) (rows w))
         (upsert_id e) q)
  ∧ (rejectBatch (rows w) objs = None →
     write_notify_return (upsertMany (e :: es) q) w
       (RSave (SaveMany objs)) (merge_rows (e :: es) (rows w)) (ManyIds uids)
       [EvRepo (RFindByIds uids (relations_of q))]
       (rows_read (merge_rows (e :: es) (rows w)) uids q))
  ∧ (∀ t_left, rejectBatch (rows w) objs = Some t_left →
     upsertMany (e :: es) q w
     = (Throw QueryFailed,
        mkWorld t_left (gateways w) (trace w ++ [EvRepo (RSave (SaveMany objs))])))
  ∧ write_notify_return (delete id) w
      (RDelete (OneId id)) (base.delete id (rows w)) (OneId id) [] (Ok id)
  ∧ write_notify_return (deleteMany (id :: ids)) w
      (RDelete (ManyIds (id :: ids))) (foldr base.delete (rows w) (id :: ids))
      (ManyIds (id :: ids)) [] (Ok (id :: ids)).
Proof.
  cbv zeta. unfold write_notify_return, row_read, rows_read. split_and!; try done.
  - by rewrite update_run, findOneOrFail_run, log_written.
  - by rewrite upsert_run, findOneOrFail_run, log_written.
  - intros Haccept. split_and!; try done.
    rewrite (upsertMany_run _ _ _ _ Haccept). cbn [fmap list_fmap].
    by rewrite findMany_run, log_written.
  - intros t_left Hreject. by apply upsertMany_rejected.
  - by rewrite delete_run.
  - by rewrite deleteMany_run.
Qed.

(** *** What a write leaves in the table *)

Lemma merge_row_lookup (id : IdType) (e : obj) (t : gmap IdType obj) :
  merge_row id e t !! id = Some (e ∪ default ∅ (t !! id)).
Proof. unfold merge_row. apply lookup_insert_eq. Qed.

Lemma merge_row_lookup_ne (id j : IdType) (e : obj) (t : gmap IdType obj) :
  j ≠ id → merge_row id e t !! j = t !! j.
Proof. intros Hj. unfold merge_row. by apply lookup_insert_ne. Qed.

Lemma merge_rows_cons (e : IUpsertEntity) (es : list IUpsertEntity)
    (t : gmap IdType obj) :
  merge_rows (e :: es) t
  = merge_rows es (merge_row (upsert_id e) (upsert_obj e) t).
Proof. done. Qed.

Lemma merge_rows_lookup_other (es : list IUpsertEntity) (t : gmap IdType obj)
    (j : IdType) :
  j ∉ upsert_id <$> es → merge_rows es t !! j = t !! j.
Proof.
  revert t. induction es as [|e es IH]; intros t Hj; [done|].
  cbn [fmap list_fmap] in Hj. apply not_elem_of_cons in Hj as [Hne Hj].
  rewrite merge_rows_cons, IH by done. by apply merge_row_lookup_ne.
Qed.

Lemma merge_rows_keeps (es : list IUpsertEntity) (t : gmap IdType obj)
    (j : IdType) :
  is_Some (t !! j) → is_Some (merge_rows es t !! j).
Proof.
  revert t. induction es as [|e es IH]; intros t Hj; [done|].
  rewrite merge_rows_cons. apply IH.
  destruct (decide (j = upsert_id e)) as [->|Hne].
  - rewrite merge_row_lookup. eauto.
  - by rewrite merge_row_lookup_ne.
Qed.

Lemma merge_rows_lookup_some (es : list IUpsertEntity) (t : gmap IdType obj)
    (j : IdType) :
  j ∈ upsert_id <$> es → is_Some (merge_rows es t !! j).
Proof.
  revert t. induction es as [|e es IH]; intros t Hj.
  { by apply elem_of_nil in Hj. }
  cbn [fmap list_fmap] in Hj. rewrite merge_rows_cons. apply elem_of_cons in Hj as [->|Hj]; [|by apply IH].
  apply merge_rows_keeps. rewrite merge_row_lookup. eauto.
Qed.

Lemma delete_many_lookup (ids : list IdType) (t : gmap IdType obj)
    (j : IdType) :
  foldr base.delete t ids !! j = if decide (j ∈ ids) then None else t !! j.
Proof.
  induction ids as [|i ids IH]; cbn [foldr].
  { case_decide as Hj; [by apply elem_of_nil in Hj|done]. }
  destruct (decide (i = j)) as [->|Hne].
  - rewrite lookup_delete_eq. rewrite decide_True; [done|]. apply elem_of_cons; auto.
  - rewrite lookup_delete_ne, IH by done.
    destruct (decide (j ∈ ids)) as [Hin|Hnin].
    + rewrite decide_True; [done|]. apply elem_of_cons; auto.
    + rewrite decide_False; [done|]. intros [->|Hin]%elem_of_cons; done.
Qed.

(** C2: [update] saves the partial entity under the id, and the row of the
    id takes the fields the partial names and keeps its other fields (a row
    is inserted when there was none; the other rows stay); the trigger is
    then called with the id alone; and the value returned is what
    [findOneOrFail] of that id returns after the write and the trigger,
    projected through the query when there is one. *)
Theorem update_merges_triggers_rereads
    (id : IdType) (partial : obj) (q : value) (w : World) :
  let saved := <["id" := id_value id]> partial in
  let t' := merge_row id saved (rows w) in
  let w1 := written w t' (RSave (SaveOne saved)) (OneId id) in
  let row' := saved ∪ default ∅ (rows w !! id) in
  update id partial q w = findOneOrFail id q w1
  ∧ update id partial q w
    = (through q (VObj (loadRelations (relations_of q) row')),
       log (EvRepo (RFindOneOrFail id (relations_of q))) w1)
  ∧ filter (λ ev, is_trigger ev) (since w (update id partial q w).2)
    = [EvTrigger (OneId id)]
  ∧ t' !! id = Some row'
  ∧ (∀ k v, k ≠ "id" → partial !! k = Some v → row' !! k = Some v)
  ∧ (∀ k, k ≠ "id" → partial !! k = None →
       row' !! k = rows w !! id ≫= (.!! k))
  ∧ (∀ j, j ≠ id → t' !! j = rows w !! j).
Proof.
  cbv zeta. rewrite update_run, findOneOrFail_run. cbv zeta.
  replace (rows (written _ _ _ _) !! id)
    with (merge_row id (<["id" := id_value id]> partial) (rows w) !! id) by done.
  rewrite merge_row_lookup. split_and!; try done.
  - cbn [snd]. by rewrite log_written, since_app.
  - intros k v Hk Hv. apply lookup_union_Some_l.
    by rewrite lookup_insert_ne.
  - intros k Hk Hv. rewrite lookup_union_r by by rewrite lookup_insert_ne.
    by destruct (rows w !! id).
  - intros j Hj. by apply merge_row_lookup_ne.
Qed.

(** C9: the object [update] passes to [save] is the partial entity with its
    [id] field set to the id argument, whatever [id] field the partial
    carried; its other fields are the partial's; the row written is the row
    of the id argument and holds that id, and no other row changes. *)
Theorem update_saves_under_id_argument
    (id : IdType) (entity : obj) (q : value) (w : World) :
  let saved := <["id" := id_value id]> entity in
  let w' := (update id entity q w).2 in
  (∃ evs, since w w' = EvRepo (RSave (SaveOne saved)) :: evs)
  ∧ saved !! "id" = Some (id_value id)
  ∧ value_id (default VUndefined (saved !! "id")) = Some id
  ∧ (∀ k, k ≠ "id" → saved !! k = entity !! k)
  ∧ (∃ row, rows w' !! id = Some row ∧ row !! "id" = Some (id_value id))
  ∧ (∀ j, j ≠ id → rows w' !! j = rows w !! j).
Proof.
  cbv zeta. rewrite update_run, findOneOrFail_run. cbv zeta.
  cbn [snd]. rewrite log_written, since_app. cbn [rows].
  rewrite lookup_insert_eq. split_and!; try done.
  - by eexists.
  - cbn. apply value_id_id_value.
  - intros k Hk. by rewrite lookup_insert_ne.
  - eexists. split; [apply merge_row_lookup|].
    apply lookup_union_Some_l, lookup_insert_eq.
  - intros j Hj. by apply merge_row_lookup_ne.
Qed.

(** C5, as the code has it: [upsertMany] on a non-empty list hands the whole
    list to the store in one save. When the store accepts the batch (every
    id of the list then has a row, the rows of other ids stay), it calls the
    trigger once, with the list of all the ids, and returns what [findMany]
    of those ids returns after that, projected through the query when there
    is one. When the store rejects the batch, the failure is thrown on: no
    trigger is called and nothing is read back. *)
Theorem upsertMany_batch_write_trigger_reread
    (e : IUpsertEntity) (es : list IUpsertEntity) (q : value) (w : World) :
  let ids := upsert_id <$> e :: es in
  let objs := upsert_obj <$> e :: es in
  let t' := merge_rows (e :: es) (rows w) in
  let w1 := written w t' (RSave (SaveMany objs)) (ManyIds ids) in
  (rejectBatch (rows w) objs = None →
   upsertMany (e :: es) q w = findMany ids q w1
   ∧ upsertMany (e :: es) q w
     = (through q (loaded (relations_of q) (rows_of ids t')),
        log (EvRepo (RFindByIds ids (relations_of q))) w1)
   ∧ filter (λ ev, is_trigger ev) (since w (upsertMany (e :: es) q w).2)
     = [EvTrigger (ManyIds ids)]
   ∧ (∀ j, j ∈ ids → is_Some (t' !! j))
   ∧ (∀ j, j ∉ ids → t' !! j = rows w !! j))
  ∧ (∀ t_left, rejectBatch (rows w) objs = Some t_left →
     upsertMany (e :: es) q w
     = (Throw QueryFailed,
        mkWorld t_left (gateways w)
          (trace w ++ [EvRepo (RSave (SaveMany objs))]))).
Proof.
  cbv zeta. split.
  - intros Haccept. rewrite (upsertMany_run _ _ _ _ Haccept).
    cbn [fmap list_fmap]. rewrite findMany_run. split_and!; try done.
    + cbn [snd]. by rewrite log_written, since_app.
    + intros j Hj. by apply (merge_rows_lookup_some (e :: es)).
    + intros j Hj. by apply (merge_rows_lookup_other (e :: es)).
  - intros t_left Hreject. by apply upsertMany_rejected.
Qed.

(** C6: [delete] removes the row of the id, calls the trigger with that id
    alone and returns the id; [deleteMany] on a non-empty list removes the
    rows of all the ids in one call, calls the trigger with the whole list
    and returns the list; the other rows stay. *)
Theorem delete_and_deleteMany_trigger_and_return
    (id : IdType) (ids : list IdType) (w : World) :
  delete id w
  = (Ok id,
     mkWorld (base.delete id (rows w))
       (gs_trigger (OneId id) (base.delete id (rows w)) (gateways w))
       (trace w ++ [EvRepo (RDelete (OneId id)); EvTrigger (OneId id)]))
  ∧ deleteMany (id :: ids) w
    = (Ok (id :: ids),
       mkWorld (foldr base.delete (rows w) (id :: ids))
         (gs_trigger (ManyIds (id :: ids))
            (foldr base.delete (rows w) (id :: ids)) (gateways w))
         (trace w ++ [EvRepo (RDelete (ManyIds (id :: ids)));
                      EvTrigger (ManyIds (id :: ids))]))
  ∧ (∀ j, base.delete id (rows w) !! j
          = if decide (j = id) then None else rows w !! j)
  ∧ (∀ j, foldr base.delete (rows w) (id :: ids) !! j
          = if decide (j ∈ id :: ids) then None else rows w !! j).
Proof.
  rewrite delete_run, deleteMany_run. split_and!; try done.
  - intros j. rewrite lookup_delete. by repeat case_decide.
  - intros j. apply delete_many_lookup.
Qed.

(** *** The two modes of [query] *)

Lemma prop_truthy (v : value) (k : string) :
  truthy v = true → prop v k = mret (get v k).
Proof. by destruct v. Qed.

Lemma bind_ret {A B} (a : A) (f : A → M B) : mret a ≫= f = f a.
Proof. reflexivity. Qed.

Lemma provisionQuery_run (o : obj) (options : option FindManyOptions)
    (w : World) :
  let q := VObj o in
  let relations := createTypeormRelationsArray q in
  let paginateOptions := get q PAGINATE_KEY in
  provisionQuery q options w =
    if truthy paginateOptions then
      (Ok (paginateRows (get paginateOptions PAGINATE_PAGE)
             (get paginateOptions PAGINATE_LIMIT)
             (loadRelations (Some relations)
                <$> selectRows options (all_rows (rows w)))),
       log (EvRepo (RPaginate (get paginateOptions PAGINATE_PAGE)
                      (get paginateOptions PAGINATE_LIMIT) options relations)) w)
    else
      (Ok (loaded (Some relations) (selectRows options (all_rows (rows w)))),
       log (EvRepo (RFind options (Some relations))) w).
Proof.
  cbv zeta. unfold provisionQuery. cbn [prop].
  rewrite bind_ret.
  destruct (truthy (get (VObj o) PAGINATE_KEY)) eqn:Hpo.
  - rewrite !(prop_truthy _ _ Hpo). unfold paginate. by run.
  - unfold repo_find. by run.
Qed.

Lemma query_run (o : obj) (options : option FindManyOptions) (w : World) :
  let q := VObj o in
  let relations := createTypeormRelationsArray q in
  let paginateOptions := get q PAGINATE_KEY in
  let page := get paginateOptions PAGINATE_PAGE in
  let limit := get paginateOptions PAGINATE_LIMIT in
  query q options w =
    if truthy paginateOptions then
      (through q (paginateRows page limit
                    (loadRelations (Some relations)
                       <$> selectRows options (all_rows (rows w)))),
       log (EvRepo (RPaginate page limit options relations)) w)
    else
      (through q (loaded (Some relations)
                    (selectRows options (all_rows (rows w)))),
       log (EvRepo (RFind options (Some relations))) w).
Proof.
  cbv zeta. unfold query.
  unfold mbind at 1, M_bind at 1. rewrite provisionQuery_run. cbv zeta.
  unfold through, projected. cbn [truthy].
  destruct (truthy (get (VObj o) PAGINATE_KEY));
    by destruct (parseQuery (VObj o) _).
Qed.

Lemma paginated_on_key (o : obj) (options : option FindManyOptions)
    (w : World) :
  paginated (VObj o) options w = truthy (get (VObj o) PAGINATE_KEY).
Proof.
  unfold paginated. rewrite query_run. cbv zeta.
  destruct (truthy (get (VObj o) PAGINATE_KEY)); cbn [snd]; unfold log, since;
    cbn [trace]; by rewrite drop_app_length.
Qed.

(** Whatever the three reserved names are, a query that carries a page
    number and a page size at its top level need not be answered in page
    mode. *)
Lemma top_level_page_and_limit_need_not_page
    (options : option FindManyOptions) (w : World) :
  let q := VObj (<[PAGINATE_PAGE := VNum 0]> {[ PAGINATE_LIMIT := VNum 0 ]}) in
  has_key q PAGINATE_PAGE = true
  ∧ has_key q PAGINATE_LIMIT = true
  ∧ paginated q options w = false.
Proof.
  cbv zeta. rewrite paginated_on_key. unfold has_key, get. split_and!.
  - apply bool_decide_eq_true. rewrite lookup_insert_eq. eauto.
  - apply bool_decide_eq_true.
    destruct (decide (PAGINATE_PAGE = PAGINATE_LIMIT)) as [<-|Hne].
    + rewrite lookup_insert_eq. eauto.
    + rewrite lookup_insert_ne, lookup_singleton_eq by done. eauto.
  - destruct (decide (PAGINATE_PAGE = PAGINATE_KEY)) as [<-|Hne].
    { by rewrite lookup_insert_eq. }
    rewrite lookup_insert_ne by done.
    destruct (decide (PAGINATE_LIMIT = PAGINATE_KEY)) as [<-|Hne'].
    { by rewrite lookup_singleton_eq. }
    by rewrite lookup_singleton_ne.
Qed.

(** C3, as the code has it: [query] on a query object runs in page mode,
    one [paginate] call on the store, exactly when the value the object
    holds under the single reserved name [PAGINATE_KEY] is truthy; the page
    number and the page size are read inside that value, under
    [PAGINATE_PAGE] and [PAGINATE_LIMIT]. Otherwise it is one [find] call
    with the caller's options. Both calls carry the relations extracted from
    the query, and in both modes the result is projected through the
    query. *)
Theorem query_pages_on_the_pagination_key
    (o : obj) (options : option FindManyOptions) (w : World) :
  let q := VObj o in
  let relations := createTypeormRelationsArray q in
  let paginateOptions := get q PAGINATE_KEY in
  let page := get paginateOptions PAGINATE_PAGE in
  let limit := get paginateOptions PAGINATE_LIMIT in
  query q options w =
    (if truthy paginateOptions then
       (through q (paginateRows page limit
                     (loadRelations (Some relations)
                        <$> selectRows options (all_rows (rows w)))),
        log (EvRepo (RPaginate page limit options relations)) w)
     else
       (through q (loaded (Some relations)
                     (selectRows options (all_rows (rows w)))),
        log (EvRepo (RFind options (Some relations))) w))
  ∧ paginated q options w = truthy paginateOptions.
Proof.
  cbv zeta. split; [apply query_run | apply paginated_on_key].
Qed.

End Properties.


(** ** The facade run on the sample *)

Section Runs.
Import Sample.

Example update_sample_log :
  trace (update (IdNum 1) {[ "id" := VNum 7; "age" := VNum 37 ]} name_only w0).2
  = [EvRepo (RSave (SaveOne {[ "id" := VNum 1; "age" := VNum 37 ]}));
     EvTrigger (OneId (IdNum 1));
     EvRepo (RFindOneOrFail (IdNum 1) (Some []))].
Proof. vm_compute. reflexivity. Qed.

Example update_sample_result :
  (update (IdNum 1) {[ "id" := VNum 7; "age" := VNum 37 ]} name_only w0).1
  = Ok (VObj {[ "name" := VStr "Ada" ]}).
Proof. vm_compute. reflexivity. Qed.

Example update_sample_row :
  rows (update (IdNum 1) {[ "id" := VNum 7; "age" := VNum 37 ]} name_only w0).2
  = {[ IdNum 1 := {[ "id" := VNum 1; "name" := VStr "Ada"; "age" := VNum 37 ]};
       IdNum 2 := bob ]}.
Proof. vm_compute. reflexivity. Qed.

Example findOneOrFail_sample_missing :
  (findOneOrFail (IdNum 5) name_only w0).1 = Throw EntityNotFound.
Proof. vm_compute. reflexivity. Qed.

Example deleteMany_sample :
  deleteMany [IdNum 2; IdNum 9] w0
  = (Ok [IdNum 2; IdNum 9],
     mkWorld {[ IdNum 1 := ada ]}
       [(ManyIds [IdNum 2; IdNum 9], {[ IdNum 1 := ada ]})]
       [EvRepo (RDelete (ManyIds [IdNum 2; IdNum 9]));
        EvTrigger (ManyIds [IdNum 2; IdNum 9])]).
Proof. vm_compute. reflexivity. Qed.

Example query_sample_nested_page :
  query nested_page None w0
  = (Ok (VObj {[ "items" := VArr [VObj {[ "name" := VStr "Bob" ]}];
                 "meta" := VObj {[ "totalItems" := VNum 2;
                                   "currentPage" := VNum 1;
                                   "itemsPerPage" := VNum 1 ]} ]}),
     mkWorld table [] [EvRepo (RPaginate (VNum 1) (VNum 1) None [])]).
Proof. vm_compute. reflexivity. Qed.

(** C3, as the specification words it, fails: a query whose top level
    carries a page number and a page size is answered by a plain [find] of
    the full set, with no [paginate] call; and a query that is answered in
    page mode has neither of the two names at its top level. *)
Lemma page_and_limit_at_top_level_do_not_page :
  (has_key flat_page PAGINATE_PAGE && has_key flat_page PAGINATE_LIMIT = true
   ∧ paginated flat_page None w0 = false
   ∧ trace (query flat_page None w0).2 = [EvRepo (RFind None (Some []))])
  ∧ (has_key nested_page PAGINATE_PAGE || has_key nested_page PAGINATE_LIMIT
     = false
     ∧ paginated nested_page None w0 = true).
Proof. vm_compute. done. Qed.

End Runs.

(** ** Further properties of the facade *)

Section FurtherProperties.
Context `{QL : QueryLib} `{SE : StoreEngine} `{GS : GatewaysStorage}.

Lemma since_refl (w : World) : since w w = [].
Proof. unfold since. by rewrite drop_all. Qed.

Lemma since_log (ev : Event) (w : World) : since w (log ev w) = [ev].
Proof. unfold since, log. cbn [trace]. by rewrite drop_app_length. Qed.

Lemma merge_row_idemp (id : IdType) (e : obj) (t : gmap IdType obj) :
  merge_row id e (merge_row id e t) = merge_row id e t.
Proof.
  unfold merge_row. rewrite lookup_insert_eq, insert_insert_eq. simpl.
  by rewrite (assoc_L (∪)), (idemp_L (∪)).
Qed.

Lemma delete_many_commute (id : IdType) (ids : list IdType)
    (t : gmap IdType obj) :
  foldr base.delete (base.delete id t) ids
  = base.delete id (foldr base.delete t ids).
Proof.
  induction ids as [|i ids IH]; [done|]. cbn [foldr].
  by rewrite IH, delete_delete.
Qed.

(** X1: without options, and with no truthy value under the pagination key,
    [query] is [findAll] with the same query: the same store call, the same
    result, the same world. *)
Theorem query_without_page_is_findAll (o : obj) (w : World) :
  truthy (get (VObj o) PAGINATE_KEY) = false →
  query (VObj o) None w = findAll (VObj o) w.
Proof.
  intros Hkey. pose proof (query_run o None w) as Hq. cbv zeta in Hq.
  by rewrite Hq, Hkey, findAll_run.
Qed.

(** X2: [findOneOrFail], [findOne], [findMany] and [findAll] never call
    [paginate], whatever the query carries under the pagination key: only
    [query] has a page mode. *)
Theorem only_query_pages (id : IdType) (ids : list IdType) (q : value)
    (w : World) :
  existsb is_paginate (since w (findOneOrFail id q w).2) = false
  ∧ existsb is_paginate (since w (findOne id q w).2) = false
  ∧ existsb is_paginate (since w (findMany ids q w).2) = false
  ∧ existsb is_paginate (since w (findAll q w).2) = false.
Proof.
  rewrite findOneOrFail_run, findOne_run, findAll_run. cbn [snd].
  rewrite !since_log. split_and!; try done.
  destruct ids as [|i ids].
  - cbn. by rewrite since_refl.
  - rewrite findMany_run. cbn [snd]. by rewrite since_log.
Qed.

(** X3: [query] does not check the pagination value: when it is an object
    with neither a page nor a limit, the query still runs in page mode and
    [paginate] is called with an undefined page and an undefined limit. *)
Theorem page_mode_without_page_and_limit (o p : obj)
    (options : option FindManyOptions) (w : World) :
  o !! PAGINATE_KEY = Some (VObj p) →
  p !! PAGINATE_PAGE = None →
  p !! PAGINATE_LIMIT = None →
  since w (query (VObj o) options w).2
  = [EvRepo (RPaginate VUndefined VUndefined options
               (createTypeormRelationsArray (VObj o)))].
Proof.
  intros Ho Hpage Hlimit. pose proof (query_run o options w) as Hq.
  cbv zeta in Hq. rewrite Hq.
  assert (Hkey : get (VObj o) PAGINATE_KEY = VObj p).
  { unfold get. by rewrite Ho. }
  rewrite !Hkey. cbn [truthy snd]. rewrite since_log. unfold get.
  by rewrite Hpage, Hlimit.
Qed.

(** X4: [findOne] with a query does not return early on an absent row: it
    hands [undefined] to the projector, and its outcome is the projector's,
    a throw included. *)
Theorem findOne_absent_row_goes_to_projector (id : IdType) (q : value)
    (w : World) :
  rows w !! id = None →
  truthy q = true →
  findOne id q w
  = (match parseQuery q VUndefined with
     | Some v => Ok v
     | None => Throw TypeError
     end,
     log (EvRepo (RFindOne id (Some (createTypeormRelationsArray q)))) w).
Proof.
  intros Hnone Hq. rewrite findOne_run, Hnone. unfold through, relations_of.
  by rewrite Hq.
Qed.

(** X5: on an id that has a row, [findOne] and [findOneOrFail] return the
    same outcome. *)
Theorem findOne_agrees_with_findOneOrFail (id : IdType) (q : value)
    (w : World) :
  is_Some (rows w !! id) →
  (findOne id q w).1 = (findOneOrFail id q w).1.
Proof.
  intros [r Hr]. by rewrite findOne_run, findOneOrFail_run, Hr.
Qed.

(** X6: [upsert] of an entity is [update] at the entity's own id with the
    entity as the partial: the same save, the same trigger, the same read
    back, the same outcome and world; and it never ends in the store's
    not-found error. *)
Theorem upsert_is_update_at_own_id (e : IUpsertEntity) (q : value)
    (w : World) :
  upsert e q w = update (upsert_id e) (upsert_obj e) q w
  ∧ (upsert e q w).1 ≠ Throw EntityNotFound.
Proof.
  rewrite update_run, upsert_run. cbv zeta. unfold upsert_obj.
  rewrite insert_insert_eq. split; [done|].
  rewrite findOneOrFail_run. cbn [fst].
  replace (rows (written _ _ _ _) !! upsert_id e)
    with (merge_row (upsert_id e)
            (<["id" := id_value (upsert_id e)]> (upsert_props e)) (rows w)
          !! upsert_id e) by done.
  rewrite merge_row_lookup. apply through_not_EntityNotFound.
Qed.

(** X8: [delete] does not look for the row first: on an id without a row
    the table stays as it is, and the trigger is still called with the id,
    which is returned. *)
Theorem delete_of_absent_row_still_triggers (id : IdType) (w : World) :
  rows w !! id = None →
  delete id w
  = (Ok id,
     mkWorld (rows w) (gs_trigger (OneId id) (rows w) (gateways w))
       (trace w ++ [EvRepo (RDelete (OneId id)); EvTrigger (OneId id)])).
Proof.
  intros Hnone. rewrite delete_run. unfold written.
  by rewrite (delete_id _ _ Hnone).
Qed.

(** X9: repeating an [update] with the same arguments leaves the table as
    the first one left it, and calls the trigger again on that table. *)
Theorem update_again_keeps_the_table (id : IdType) (partial : obj)
    (q : value) (w : World) :
  let w1 := (update id partial q w).2 in
  let w2 := (update id partial q w1).2 in
  rows w2 = rows w1
  ∧ gateways w2 = gs_trigger (OneId id) (rows w1) (gateways w1)
  ∧ filter (λ ev, is_trigger ev) (since w1 w2) = [EvTrigger (OneId id)].
Proof.
  cbv zeta. rewrite (update_run id partial q w), findOneOrFail_run.
  cbn [snd]. rewrite log_written.
  rewrite update_run, findOneOrFail_run. cbn [snd]. rewrite log_written.
  cbn [rows gateways trace]. rewrite merge_row_idemp. split_and!; try done.
  unfold since. cbn [trace]. by rewrite drop_app_length.
Qed.

(** X10: [deleteMany] on [id :: ids] leaves the table that [delete id]
    followed by [deleteMany ids] leaves, with one call of the trigger, on the
    whole list, instead of one per operation. *)
Theorem deleteMany_is_delete_then_deleteMany (id : IdType)
    (ids : list IdType) (w : World) :
  rows (deleteMany (id :: ids) w).2
  = rows (deleteMany ids (delete id w).2).2
  ∧ filter (λ ev, is_trigger ev) (since w (deleteMany (id :: ids) w).2)
    = [EvTrigger (ManyIds (id :: ids))]
  ∧ filter (λ ev, is_trigger ev) (since w (delete id w).2)
    = [EvTrigger (OneId id)].
Proof.
  rewrite deleteMany_run, delete_run. unfold written. cbn [snd rows].
  rewrite !since_app. split_and!; try done.
  destruct ids as [|i ids]; [done|].
  rewrite deleteMany_run. unfold written. cbn [snd rows foldr].
  by rewrite delete_many_commute, delete_delete.
Qed.

(** X11: [update] does not undo its write when the projector throws on the
    row read back: the operation ends in that throw, with the row saved and
    the trigger called. *)
Theorem update_projector_throw_keeps_the_write (id : IdType) (partial : obj)
    (q : value) (w : World) :
  let saved := <["id" := id_value id]> partial in
  let row' := saved ∪ default ∅ (rows w !! id) in
  let relations := createTypeormRelationsArray q in
  truthy q = true →
  parseQuery q (VObj (loadRelations (Some relations) row')) = None →
  update id partial q w
  = (Throw TypeError,
     mkWorld (merge_row id saved (rows w))
       (gs_trigger (OneId id) (merge_row id saved (rows w)) (gateways w))
       (trace w ++ [EvRepo (RSave (SaveOne saved)); EvTrigger (OneId id);
                    EvRepo (RFindOneOrFail id (Some relations))])).
Proof.
  cbv zeta. intros Hq Hthrow.
  rewrite update_run, findOneOrFail_run, log_written.
  replace (rows (written _ _ _ _) !! id)
    with (merge_row id (<["id" := id_value id]> partial) (rows w) !! id)
    by done.
  rewrite merge_row_lookup. unfold through, relations_of in *.
  by rewrite Hq, Hthrow.
Qed.

End FurtherProperties.

(** ** Properties of the subscriptions *)

Section SubscriptionProperties.
Context `{QL : QueryLib} `{SE : StoreEngine} `{GS : GatewaysStorage}.
Context {Socket : Type}.

Lemma rows_of_nil (t : gmap IdType obj) : rows_of [] t = [].
Proof.
  unfold rows_of. induction (map_to_list t) as [|kr l IH]; [done|].
  rewrite filter_cons_False; [done|]. apply not_elem_of_nil.
Qed.

Lemma oneEntityListener_run (id : IdType) (q : value) (w : World) :
  oneEntityListener id q w
  = (match rows w !! id with
     | Some r =>
         Ok (VObj (loadRelations (Some (createTypeormRelationsArray q)) r))
     | None => Throw EntityNotFound
     end,
     log (EvRepo (RFindOneOrFail id (Some (createTypeormRelationsArray q)))) w).
Proof.
  unfold oneEntityListener, repo_findOneOrFail, mbind, M_bind, called, get_rows.
  cbn [rows log]. by destruct (rows w !! id).
Qed.

Lemma read_only_listeners (id : IdType) (ids : list IdType) (q : value)
    (options : option FindManyOptions) :
  read_only (oneEntityListener id q)
  ∧ read_only (manyEntitiesListener ids q)
  ∧ read_only (queryListener q options).
Proof.
  split_and!.
  - unfold oneEntityListener, repo_findOneOrFail.
    apply read_only_bind; [by apply read_only_called|intros _].
    apply read_only_bind; [apply read_only_get_rows|intros t].
    destruct (t !! id); [apply read_only_ret|apply read_only_throw].
  - unfold manyEntitiesListener, repo_findByIds.
    apply read_only_bind; [by apply read_only_called|intros _].
    apply read_only_bind; [apply read_only_get_rows|intros t].
    apply read_only_ret.
  - unfold queryListener, provisionQuery, paginate, repo_find.
    apply read_only_bind; [apply read_only_prop|intros po].
    destruct (truthy po).
    + apply read_only_bind; [apply read_only_prop|intros page].
      apply read_only_bind; [apply read_only_prop|intros limit].
      apply read_only_bind; [by apply read_only_called|intros _].
      apply read_only_bind; [apply read_only_get_rows|intros t].
      apply read_only_ret.
    + apply read_only_bind; [by apply read_only_called|intros _].
      apply read_only_bind; [apply read_only_get_rows|intros t].
      apply read_only_ret.
Qed.

(** X12: with a query, each read of the facade is the listener of the
    matching subscription followed by the projection: [findOneOrFail] is the
    one-entity listener, [findMany] on a non-empty list the many-entities
    listener, [query] the query listener. A listener itself returns the
    store's result unprojected. *)
Theorem reads_are_listeners_then_projection (id : IdType)
    (ids : list IdType) (q : value) (options : option FindManyOptions) :
  truthy q = true →
  findOneOrFail id q = oneEntityListener id q ≫= projected q
  ∧ findMany (id :: ids) q = manyEntitiesListener (id :: ids) q ≫= projected q
  ∧ query q options = queryListener q options ≫= projected q.
Proof.
  intros Hq. unfold findOneOrFail, findMany. cbn [length Nat.eqb].
  by rewrite Hq.
Qed.

(** X13: the many-entities listener has no short cut for an empty id list:
    it asks the store, where [findMany] on the same list returns the empty
    list with no store call. *)
Theorem manyEntitiesListener_empty_asks_the_store (q : value) (w : World) :
  manyEntitiesListener [] q w
  = (Ok (VArr []),
     log (EvRepo (RFindByIds [] (Some (createTypeormRelationsArray q)))) w)
  ∧ findMany [] q w = (Ok (VArr []), w).
Proof.
  split; [|done].
  unfold manyEntitiesListener, repo_findByIds, mbind, M_bind, called, get_rows,
    mret, M_ret, loaded.
  cbn [rows log]. by rewrite rows_of_nil.
Qed.

(** X14: whatever subscription is made, the listener handed to the storage
    only reads: run at any time, it leaves the table and the storage as
    they are and calls no trigger; and the socket, the channel and the query
    are handed over unchanged. *)
Theorem subscriptions_hand_over_read_only_listeners
    (socket : Socket) (channel : string) (id : IdType) (ids : list IdType)
    (q : value) (options : option FindManyOptions) (p : Provision) :
  oneEntitySubscription socket channel id q = ProvisionIdsSubscription p
  ∨ manyEntitiesSubscription socket channel ids q = ProvisionIdsSubscription p
  ∨ querySubscription socket channel q options = ProvisionQuerySubscription p →
  read_only (sub_listener p)
  ∧ (∀ w, existsb is_trigger (since w (sub_listener p w).2) = false)
  ∧ sub_socket p = socket ∧ sub_channel p = channel ∧ sub_query p = q.
Proof.
  destruct (read_only_listeners id ids q options) as (H1 & Hn & Hq).
  intros [Hp|[Hp|Hp]]; injection Hp as <-; cbn [sub_listener sub_socket
    sub_channel sub_query]; split_and!; try done;
    intros w; by apply read_only_no_trigger.
Qed.

(** X15: after an [update] with a query, the one-entity listener of the
    same id and query reads a row whose projection is the value the update
    returned. *)
Theorem listener_after_update_reads_the_returned_row (id : IdType)
    (partial : obj) (q : value) (w : World) :
  truthy q = true →
  let w' := (update id partial q w).2 in
  ∃ v, (oneEntityListener id q w').1 = Ok v
       ∧ through q v = (update id partial q w).1.
Proof.
  intros Hq. cbv zeta. rewrite oneEntityListener_run.
  rewrite update_run, findOneOrFail_run, log_written. cbn [fst snd rows].
  replace (rows (written _ _ _ _) !! id)
    with (merge_row id (<["id" := id_value id]> partial) (rows w) !! id)
    by done.
  rewrite merge_row_lookup. eexists. split; [done|].
  unfold relations_of. by rewrite Hq.
Qed.

(** X16: after [delete], the row is gone for every reader: the one-entity
    listener of the id and [findOneOrFail] end in the not-found error, and
    [findOne] without a query returns [undefined]. *)
Theorem readers_after_delete_find_no_row (id : IdType) (q : value)
    (w : World) :
  let w' := (delete id w).2 in
  (oneEntityListener id q w').1 = Throw EntityNotFound
  ∧ (findOneOrFail id q w').1 = Throw EntityNotFound
  ∧ (findOne id VUndefined w').1 = Ok VUndefined.
Proof.
  cbv zeta. rewrite oneEntityListener_run, findOneOrFail_run, findOne_run.
  rewrite delete_run. cbn [fst snd]. unfold written. cbn [rows].
  by rewrite lookup_delete_eq.
Qed.

End SubscriptionProperties.

(** ** Properties of the REST clients *)

Section RestProperties.
Context `{RC : RestConfig}.

Lemma body_lookup_dto (query dto : value) :
  (<[DTO_KEY := dto]> (<[QUERY_KEY := query]> (∅ : obj))) !! DTO_KEY
  = Some dto.
Proof. apply lookup_insert_eq. Qed.

Lemma body_lookup_query (query dto : value) :
  QUERY_KEY ≠ DTO_KEY →
  (<[DTO_KEY := dto]> (<[QUERY_KEY := query]> (∅ : obj))) !! QUERY_KEY
  = Some query
  ∧ dom (<[DTO_KEY := dto]> (<[QUERY_KEY := query]> (∅ : obj)))
    = {[QUERY_KEY; DTO_KEY]}.
Proof.
  intros Hne. split.
  - by rewrite lookup_insert_ne, lookup_insert_eq.
  - rewrite !dom_insert_L, dom_empty_L, (right_id_L ∅ (∪)).
    apply (comm_L (∪)).
Qed.

Lemma body_same_key (query dto : value) :
  QUERY_KEY = DTO_KEY →
  <[DTO_KEY := dto]> (<[QUERY_KEY := query]> (∅ : obj)) = {[DTO_KEY := dto]}.
Proof. intros ->. by rewrite insert_insert_eq. Qed.

Lemma url_suffix_ne (base s1 s2 : string) :
  s1 ≠ s2 → base +:+ s1 ≠ base +:+ s2.
Proof. intros Hne Heq. by apply (inj (String.app base)) in Heq. Qed.

(** X17: the body every method of the two clients posts holds the DTO under
    [DTO_KEY]; when the two names differ it holds the query under
    [QUERY_KEY] and nothing else; were the two names the same, the DTO alone
    would be sent. *)
Theorem rest_bodies_hold_query_and_dto (query dto : value) :
  Forall (λ m : value → value → HttpPost,
            let b := post_body (m query dto) in
            b !! DTO_KEY = Some dto
            ∧ (QUERY_KEY ≠ DTO_KEY →
               b !! QUERY_KEY = Some query ∧ dom b = {[QUERY_KEY; DTO_KEY]})
            ∧ (QUERY_KEY = DTO_KEY → b = {[DTO_KEY := dto]}))
    (HandleRestClient.methods ++ ServeAdminRestClient.methods).
Proof.
  unfold HandleRestClient.methods, ServeAdminRestClient.methods.
  repeat apply Forall_cons_2; try apply Forall_nil_2;
    (split_and!;
     [apply body_lookup_dto | apply body_lookup_query | apply body_same_key]).
Qed.

(** X18: within a client, no two methods post to the same URL, whatever the
    API URL and the route are; the URL does not depend on the query or the
    DTO. *)
Theorem rest_methods_post_to_distinct_urls (query dto : value) :
  NoDup ((λ m : value → value → HttpPost, post_url (m query dto))
           <$> HandleRestClient.methods)
  ∧ NoDup ((λ m : value → value → HttpPost, post_url (m query dto))
             <$> ServeAdminRestClient.methods)
  ∧ Forall (λ m : value → value → HttpPost,
              ∀ query' dto', post_url (m query' dto') = post_url (m query dto))
      (HandleRestClient.methods ++ ServeAdminRestClient.methods).
Proof.
  split_and!.
  - cbn. repeat (apply NoDup_cons; split);
      [..|apply NoDup_nil_2];
      rewrite ?not_elem_of_cons; split_and?;
      try apply not_elem_of_nil; by apply url_suffix_ne.
  - cbn. repeat (apply NoDup_cons; split);
      [..|apply NoDup_nil_2];
      rewrite ?not_elem_of_cons; split_and?;
      try apply not_elem_of_nil; by apply url_suffix_ne.
  - unfold HandleRestClient.methods, ServeAdminRestClient.methods.
    by repeat apply Forall_cons_2; try apply Forall_nil_2.
Qed.

End RestProperties.

(** ** The facade over the projector of the spec *)

Section ProjectorProperties.
Context `{QL : QueryLib} `{SE : StoreEngine} `{GS : GatewaysStorage}.

Lemma project_page_absent (reserved items_key : string) (q : value) :
  project_page reserved items_key q VUndefined = VUndefined.
Proof. unfold project_page. by destruct (truthy (get q reserved)). Qed.

(** C8: when no row matches the id, [findOne] does not fail and returns
    [undefined]: without a query, where the store's absent result is
    returned as it is, and with a query, where the absent result goes
    through the projector, which passes it on. *)
Theorem findOne_absent_row_no_failure (items_key : string) (id : IdType)
    (q : value) (w : World) :
  rows w !! id = None →
  @findOne (with_spec_projector items_key QL) SE GS id q w
  = (Ok VUndefined, log (EvRepo (RFindOne id (relations_of q))) w).
Proof.
  intros Hnone.
  apply (@findOne_absent_row_passed_through (with_spec_projector items_key QL));
    [done|].
  intros _. cbn [parseQuery with_spec_projector].
  by rewrite project_page_absent.
Qed.

End ProjectorProperties.

(** ** The further properties on the samples *)

Section FurtherRuns.
Import Sample Sample2.

Lemma query_without_page_is_findAll_sample :
  query (VObj {[ "name" := VBool true ]}) None w0
  = findAll (VObj {[ "name" := VBool true ]}) w0.
Proof. apply query_without_page_is_findAll. reflexivity. Defined.

Lemma page_mode_without_page_and_limit_sample :
  since w0
    (query (VObj {[ "name" := VBool true; "__paginate" := VObj ∅ ]}) None w0).2
  = [EvRepo (RPaginate VUndefined VUndefined None
               (createTypeormRelationsArray
                  (VObj {[ "name" := VBool true; "__paginate" := VObj ∅ ]})))].
Proof.
  apply (page_mode_without_page_and_limit _ ∅ None w0); reflexivity.
Defined.

Lemma findOne_absent_row_goes_to_projector_sample :
  @findOne strict engine storage (IdNum 5) name_only w0
  = (Throw TypeError,
     log (EvRepo (RFindOne (IdNum 5) (Some []))) w0).
Proof.
  exact (@findOne_absent_row_goes_to_projector strict engine storage
           (IdNum 5) name_only w0 eq_refl eq_refl).
Defined.

Lemma findOne_agrees_with_findOneOrFail_sample :
  (findOne (IdNum 1) name_only w0).1 = (findOneOrFail (IdNum 1) name_only w0).1.
Proof.
  apply findOne_agrees_with_findOneOrFail. exists ada. reflexivity.
Defined.

Lemma delete_of_absent_row_still_triggers_sample :
  delete (IdNum 9) w0
  = (Ok (IdNum 9),
     mkWorld table [(OneId (IdNum 9), table)]
       [EvRepo (RDelete (OneId (IdNum 9))); EvTrigger (OneId (IdNum 9))]).
Proof.
  exact (delete_of_absent_row_still_triggers (IdNum 9) w0 eq_refl).
Defined.

Lemma update_projector_throw_keeps_the_write_sample :
  ∃ w', @update strict engine storage (IdNum 1) {[ "age" := VNum 37 ]}
          email_only w0 = (Throw TypeError, w')
        ∧ rows w' !! IdNum 1
          = Some {[ "id" := VNum 1; "name" := VStr "Ada"; "age" := VNum 37 ]}.
Proof.
  eexists. split.
  - apply (@update_projector_throw_keeps_the_write strict engine storage);
      reflexivity.
  - vm_compute. reflexivity.
Defined.

Lemma reads_are_listeners_then_projection_sample :
  findOneOrFail (IdNum 1) name_only
  = oneEntityListener (IdNum 1) name_only ≫= projected name_only
  ∧ findMany [IdNum 1; IdNum 2] name_only
    = manyEntitiesListener [IdNum 1; IdNum 2] name_only ≫= projected name_only
  ∧ query name_only None = queryListener name_only None ≫= projected name_only.
Proof.
  apply (reads_are_listeners_then_projection (IdNum 1) [IdNum 2] name_only
           None).
  reflexivity.
Defined.

Lemma subscriptions_hand_over_read_only_listeners_sample :
  let p := mkProvision 7 "ada" (oneEntityListener (IdNum 1) name_only)
             name_only in
  read_only (sub_listener p)
  ∧ (∀ w, existsb is_trigger (since w (sub_listener p w).2) = false)
  ∧ sub_socket p = 7 ∧ sub_channel p = "ada" ∧ sub_query p = name_only.
Proof.
  apply (subscriptions_hand_over_read_only_listeners 7 "ada" (IdNum 1) []
           name_only None).
  left. reflexivity.
Defined.

Lemma listener_after_update_reads_the_returned_row_sample :
  ∃ v, (oneEntityListener (IdNum 1) name_only
          (update (IdNum 1) {[ "age" := VNum 37 ]} name_only w0).2).1 = Ok v
       ∧ through name_only v
         = (update (IdNum 1) {[ "age" := VNum 37 ]} name_only w0).1.
Proof.
  apply listener_after_update_reads_the_returned_row. reflexivity.
Defined.

Example project_sample_exact :
  project "__paginate"
    (VObj {[ "id" := VNum 1; "name" := VStr "a"; "secret" := VStr "x" ]})
    (VObj {[ "id" := VBool true; "name" := VBool true ]})
  = VObj {[ "id" := VNum 1; "name" := VStr "a" ]}.
Proof. vm_compute. reflexivity. Qed.

Example project_sample_nested :
  project "__paginate"
    (VArr [VObj {[ "id" := VNum 1;
                   "author" := VObj {[ "name" := VStr "a";
                                       "secret" := VStr "x" ]} ]}])
    (VObj {[ "author" := VObj {[ "name" := VBool true ]} ]})
  = VArr [VObj {[ "author" := VObj {[ "name" := VStr "a" ]} ]}].
Proof. vm_compute. reflexivity. Qed.

Lemma findOne_absent_row_no_failure_sample :
  @findOne (with_spec_projector "items" lib) engine storage (IdNum 5)
    name_only w0
  = (Ok VUndefined, log (EvRepo (RFindOne (IdNum 5) (Some []))) w0).
Proof.
  exact (findOne_absent_row_no_failure "items" (IdNum 5) name_only w0 eq_refl).
Defined.

Lemma mutators_trigger_after_write_before_return_sample :
  write_notify_return (upsertMany [cy; dee] name_only) w0
    (RSave (SaveMany [upsert_obj cy; upsert_obj dee]))
    (merge_rows [cy; dee] table) (ManyIds [IdNum 3; IdNum 4])
    [EvRepo (RFindByIds [IdNum 3; IdNum 4] (relations_of name_only))]
    (rows_read (merge_rows [cy; dee] table) [IdNum 3; IdNum 4] name_only).
Proof.
  destruct (mutators_trigger_after_write_before_return (IdNum 1) [] ∅ cy [dee]
              name_only w0) as (_ & _ & Hmany & _).
  apply Hmany. reflexivity.
Defined.

Lemma upsertMany_batch_write_trigger_reread_sample :
  filter (λ ev, is_trigger ev) (since w0 (upsertMany [cy; dee] name_only w0).2)
  = [EvTrigger (ManyIds [IdNum 3; IdNum 4])].
Proof.
  destruct (upsertMany_batch_write_trigger_reread cy [dee] name_only w0)
    as [Haccepted _].
  destruct (Haccepted eq_refl) as (_ & _ & Htrigger & _). exact Htrigger.
Defined.

(** C5, as the specification words it, fails: on a list that names twice an
    id without a row, the store rejects the batch; [upsertMany] throws, calls
    no trigger and reads nothing back. *)
Lemma upsertMany_repeated_new_id_throws_before_trigger :
  upsertMany [cy; cy] VUndefined w0
  = (Throw QueryFailed,
     mkWorld table []
       [EvRepo (RSave (SaveMany [upsert_obj cy; upsert_obj cy]))])
  ∧ existsb is_trigger (since w0 (upsertMany [cy; cy] VUndefined w0).2) = false.
Proof. vm_compute. done. Qed.

Example rest_sample_request :
  @HandleRestClient.verifyHandle config (VObj {[ "isUnique" := VBool true ]})
    (VObj {[ "handle" := VStr "ada" ]})
  = mkPost "https://api.example.org/handle/verifyHandle"
      {[ "query" := VObj {[ "isUnique" := VBool true ]};
         "dto" := VObj {[ "handle" := VStr "ada" ]} ]}.
Proof. vm_compute. reflexivity. Qed.

End FurtherRuns.
